(** * Merging Fastmail filing rules: a verified model of
      [cleanup-fastmail-rules.py]

    The script reads a list of rules, finds the rules that file mail into
    the same folder and whose [search] is made only of [from:ADDRESS]
    clauses, and collapses each such group into one rule.  This file embeds
    the four functions of the script ([is_from_rule], [extract_emails],
    [combine_rules_for_folder], [combine_all_folders]) together with the
    Python string primitives they rely on, and proves the properties the
    specification states about them. *)

From Stdlib Require Import String Ascii.
From stdpp Require Import base list gmap sorting.

Local Open Scope N_scope.

(** ** Python text *)

(** A Python [str] is a sequence of Unicode code points. *)
Definition char := N.
Definition str := list char.

(** ASCII literals of the script, as code points. *)
Definition lit (s : string) : str := N_of_ascii <$> list_ascii_of_string s.

Module Py.

(** [str.isspace] on one code point, which is also the class [\s] of [re]
    on [str] patterns and the set [str.strip()] removes: the characters of
    category Zs or of bidirectional class WS, B or S. *)
Definition isspace (c : char) : bool :=
  ((9 <=? c) && (c <=? 13)) || ((28 <=? c) && (c <=? 32))
  || (c =? 133) || (c =? 160) || (c =? 5760)
  || ((8192 <=? c) && (c <=? 8202))
  || (c =? 8232) || (c =? 8233) || (c =? 8239) || (c =? 8287)
  || (c =? 12288).

Fixpoint dropwhile {A} (p : A → bool) (l : list A) : list A :=
  match l with
  | [] => []
  | x :: l' => if p x then dropwhile p l' else l
  end.

Fixpoint takewhile {A} (p : A → bool) (l : list A) : list A :=
  match l with
  | [] => []
  | x :: l' => if p x then x :: takewhile p l' else []
  end.

Definition lstrip (s : str) : str := dropwhile isspace s.
Definition rstrip (s : str) : str := reverse (dropwhile isspace (reverse s)).

(** [s.strip()] *)
Definition strip (s : str) : str := rstrip (lstrip s).

(** [s.startswith(p)] *)
Fixpoint startswith (p s : str) : bool :=
  match p, s with
  | [], _ => true
  | _ :: _, [] => false
  | a :: p', b :: s' => (a =? b) && startswith p' s'
  end.

(** The scan of [s.split(sep)] for a non-empty [sep]: [cur] is the field
    read so far, [skip] the number of characters of an already matched
    separator that are still to be passed over.  Occurrences of [sep] are
    taken leftmost first and do not overlap. *)
Fixpoint split_scan (sep : str) (skip : nat) (cur : str) (s : str)
  : list str :=
  match s with
  | [] => [cur]
  | c :: s' =>
      match skip with
      | S k => split_scan sep k cur s'
      | O =>
          if startswith sep s
          then cur :: split_scan sep (pred (length sep)) [] s'
          else split_scan sep O (cur ++ [c]) s'
      end
  end.

(** [s.split(sep)] *)
Definition split (sep s : str) : list str := split_scan sep O [] s.

(** [sep.join(parts)] *)
Fixpoint join (sep : str) (parts : list str) : str :=
  match parts with
  | [] => []
  | [x] => x
  | x :: rest => x ++ sep ++ join sep rest
  end.

(** [s[n:]] *)
Definition slice_from (n : nat) (s : str) : str := drop n s.

(** Truthiness of an optional text: [None] and [''] are falsy. *)
Definition truthy (o : option str) : bool :=
  match o with
  | Some (_ :: _) => true
  | _ => false
  end.

(** Code-point comparison of two [str], as [<=] on Python strings. *)
Fixpoint str_leb (a b : str) : bool :=
  match a, b with
  | [], _ => true
  | _ :: _, [] => false
  | x :: a', y :: b' => (x <? y) || ((x =? y) && str_leb a' b')
  end.

Definition str_le (a b : str) : Prop := str_leb a b = true.

#[global] Instance str_le_dec a b : Decision (str_le a b).
Proof. unfold str_le. apply _. Defined.

(** [sorted(xs)] on a collection of [str]. *)
Definition sorted (xs : list str) : list str := merge_sort str_le xs.

(** [list(dict.fromkeys(xs))]: the keys of the dict in insertion order; a
    key that is already present keeps its place. *)
Definition dict_add {A} `{EqDecision A} (keys : list A) (k : A) : list A :=
  if decide (k ∈ keys) then keys else keys ++ [k].

Definition fromkeys {A} `{EqDecision A} (xs : list A) : list A :=
  foldl dict_add [] xs.

End Py.

(** ** The regular expression [^from:[^\s]+$] *)

Definition from_prefix : str := lit "from:".
Definition or_sep : str := lit " OR ".
Definition newline : char := 10.

(** [re.match(r'^from:[^\s]+$', term)] as a truth value.  After the literal
    [from:], the class [[^\s]+] takes the longest run of non-space
    characters, which must not be empty; [$] then holds at the end of the
    text or just before a newline that ends the text.  Giving back characters
    of the run cannot help [$], since the character that follows would be a
    non-space one. *)
Definition re_match_from (term : str) : bool :=
  Py.startswith from_prefix term &&
  (let rest := Py.slice_from (length from_prefix) term in
   let run := Py.takewhile (λ c, negb (Py.isspace c)) rest in
   let tail := Py.dropwhile (λ c, negb (Py.isspace c)) rest in
   match run, tail with
   | _ :: _, [] => true
   | _ :: _, [c] => c =? newline
   | _, _ => false
   end).

(** ** Rules *)

Section Rules.

(** The fields the script never looks at. *)
Context {Payload : Type}.

(** A rule: [search] and [fileIn] are text, or [None] when the key is
    absent or holds [null]. *)
Record Rule : Type := mkRule {
  search : option str;
  fileIn : option str;
  payload : Payload;
}.

(** [rule.copy()] followed by [rule['search'] = s] *)
Definition set_search (r : Rule) (s : str) : Rule :=
  {| search := Some s; fileIn := fileIn r; payload := payload r |}.

Definition terms_of (s : str) : list str := Py.strip <$> Py.split or_sep s.

Definition is_from_rule (rule : Rule) : bool :=
  match search rule with
  | None => false
  | Some [] => false
  | Some s => forallb re_match_from (terms_of s)
  end.

Definition extract_emails (s : str) : list str :=
  Py.slice_from 5 <$> terms_of s.

(** The test of the partition loop:
    [rule.get('fileIn') == target_folder and is_from_rule(rule)]. *)
Definition is_candidate (target_folder : str) (rule : Rule) : bool :=
  bool_decide (fileIn rule = Some target_folder) && is_from_rule rule.

(** One turn of the partition loop over the pair
    [(to_combine, other_rules)]. *)
Definition partition_step (target_folder : str)
    (acc : list Rule * list Rule) (rule : Rule) : list Rule * list Rule :=
  if is_candidate target_folder rule
  then (acc.1 ++ [rule], acc.2)
  else (acc.1, acc.2 ++ [rule]).

(** [extract_emails(rule['search'])]; a rule of [to_combine] has passed
    [is_from_rule], so its [search] holds a text and the other branch is
    never taken there. *)
Definition addresses_of (rule : Rule) : list str :=
  match search rule with
  | Some s => extract_emails s
  | None => []
  end.

(** The loop that gathers [all_emails]. *)
Definition all_emails_of (to_combine : list Rule) : list str :=
  foldl (λ all_emails rule, all_emails ++ addresses_of rule) [] to_combine.

Definition combine_rules_for_folder (rules : list Rule)
    (target_folder : str) : list Rule :=
  let '(to_combine, other_rules) :=
    foldl (partition_step target_folder) ([], []) rules in
  match to_combine with
  | [] | [_] => rules
  | template_rule :: _ =>
      let unique_emails := Py.fromkeys (all_emails_of to_combine) in
      let combined :=
        set_search template_rule
          (Py.join or_sep ((λ email, from_prefix ++ email) <$> unique_emails)) in
      combined :: other_rules
  end.

(** The loop that fills the set [folders]. *)
Definition folders_of (rules : list Rule) : gset str :=
  foldl (λ (folders : gset str) rule,
           if Py.truthy (fileIn rule) && is_from_rule rule
           then folders ∪ {[ default [] (fileIn rule) ]}
           else folders)
        ∅ rules.

Definition combine_all_folders (rules : list Rule) : list Rule :=
  foldl combine_rules_for_folder rules (Py.sorted (elements (folders_of rules))).

End Rules.

Arguments Rule : clear implicits.

Definition ex_rule (s f : string) (n : nat) : Rule nat :=
  mkRule (Some (lit s)) (Some (lit f)) n.

Definition ex_rules : list (Rule nat) :=
  [ex_rule "from:a@x.com" "F" 1; ex_rule "subject:hi" "F" 2;
   ex_rule "from:b@x.com OR from:a@x.com" "F" 3].

(** ** Statements of the specification *)

(** A term that is [from:] followed by one or more non-space characters and
    nothing else. *)
Definition from_term (t : str) : Prop :=
  ∃ addr : str, t = from_prefix ++ addr ∧ addr ≠ [] ∧
                Forall (λ c, Py.isspace c = false) addr.

(** De-duplication in first-occurrence order: the head is kept and its later
    copies are dropped. *)
Fixpoint first_occ {A} `{EqDecision A} (l : list A) : list A :=
  match l with
  | [] => []
  | x :: l' => x :: filter (λ y, y ≠ x) (first_occ l')
  end.

(** The two parts of the partition of [rules] for a folder. *)
Definition candidates {Payload} (target_folder : str)
    (rules : list (Rule Payload)) : list (Rule Payload) :=
  filter (λ r, is_candidate target_folder r = true) rules.

Definition others {Payload} (target_folder : str)
    (rules : list (Rule Payload)) : list (Rule Payload) :=
  filter (λ r, is_candidate target_folder r ≠ true) rules.

(** The rule that stands for the candidates [first :: rest]: the fields of
    [first], and as [search] the addresses of all of them, each once. *)
Definition merged_rule {Payload} (first : Rule Payload)
    (rest : list (Rule Payload)) : Rule Payload :=
  {| search := Some (Py.join or_sep
                       ((λ email, from_prefix ++ email) <$>
                          first_occ (concat (addresses_of <$> first :: rest))));
     fileIn := fileIn first;
     payload := payload first |}.

(** An address as [is_from_rule] lets through: not empty, no space
    character. *)
Definition good_addr (a : str) : Prop :=
  a ≠ [] ∧ Forall (λ c, Py.isspace c = false) a.

(** A folder that [combine_all_folders] works on: its name is not empty,
    and some rule that passes [is_from_rule] files into it. *)
Definition qualifies {Payload} (folder : str) (rules : list (Rule Payload))
  : Prop :=
  folder ≠ [] ∧
  ∃ r, r ∈ rules ∧ fileIn r = Some folder ∧ is_from_rule r = true.

(** Strictly ascending code-point order. *)
Definition str_lt (a b : str) : Prop := Py.str_le a b ∧ a ≠ b.

(** A rule without [search] or without [fileIn]. *)
Definition passes_through {Payload} (r : Rule Payload) : Prop :=
  search r = None ∨ fileIn r = None.

#[global] Instance passes_through_dec {Payload} (r : Rule Payload) :
  Decision (passes_through r).
Proof. unfold passes_through. apply _. Defined.

(** A rule of [rules] that a merge consumes: it is a candidate for a folder
    with a name, and that folder has two candidates or more in [rules]. *)
Definition absorbed {Payload} (rules : list (Rule Payload))
    (r : Rule Payload) : bool :=
  match fileIn r with
  | Some folder =>
      Py.truthy (Some folder) && is_from_rule r
      && bool_decide (2 ≤ length (candidates folder rules))%nat
  | None => false
  end.

(** What holds of the current sequence [l] while [combine_all_folders]
    works on the input [rules], once the folders [done] have had their
    turn: the folders still to come have their candidates as in the input;
    the rules no merge consumes are there as in the input; a folder with
    two candidates or more that has had its turn has its merged rule as
    only candidate; and [l] holds rules of the input and merged rules,
    nothing else. *)
Record merge_inv {Payload} (rules : list (Rule Payload)) (done : list str)
    (l : list (Rule Payload)) : Prop := {
  inv_todo : ∀ f, f ∉ done → candidates f l = candidates f rules;
  inv_kept : filter (λ r, absorbed rules r ≠ true) l
             = filter (λ r, absorbed rules r ≠ true) rules;
  inv_done : ∀ f, f ∈ done → (2 ≤ length (candidates f rules))%nat →
             ∃ first rest, candidates f rules = first :: rest ∧
                           candidates f l = [merged_rule first rest];
  inv_only : ∀ m, m ∈ l →
             m ∈ rules ∨
             ∃ f first rest, f ≠ [] ∧ candidates f rules = first :: rest ∧
                             rest ≠ [] ∧ m = merged_rule first rest;
}.

(** The test of the loop that fills [folders]:
    [rule.get('fileIn') and is_from_rule(rule)]. *)
Definition names_folder {Payload} (r : Rule Payload) : bool :=
  Py.truthy (fileIn r) && is_from_rule r.

(** The merged rule a folder gets, when it has two candidates or more in
    [rules]. *)
Definition merged_for {Payload} (rules : list (Rule Payload)) (folder : str)
  : option (Rule Payload) :=
  match candidates folder rules with
  | first :: (_ :: _) as rest => Some (merged_rule first rest)
  | _ => None
  end.

(** A rule that the merge of one of the folders [done] consumes. *)
Definition consumed_by {Payload} (rules : list (Rule Payload))
    (done : list str) (r : Rule Payload) : Prop :=
  Exists (λ f, is_candidate f r = true ∧
               (2 ≤ length (candidates f rules))%nat) done.

#[global] Instance consumed_by_dec {Payload} (rules : list (Rule Payload))
    done r : Decision (consumed_by rules done r).
Proof. unfold consumed_by. apply _. Defined.

(** * Facts about the text primitives *)

Lemma takewhile_dropwhile {A} (p : A → bool) l :
  Py.takewhile p l ++ Py.dropwhile p l = l.
Proof. induction l as [|x l IH]; simpl; [done|]. destruct (p x); simpl; by f_equal. Qed.

Lemma takewhile_Forall {A} (p : A → bool) l : Forall (λ x, p x = true) (Py.takewhile p l).
Proof.
  induction l as [|x l IH]; simpl; [constructor|].
  destruct (p x) eqn:E; by constructor.
Qed.

Lemma dropwhile_head {A} (p : A → bool) l x l' :
  Py.dropwhile p l = x :: l' → p x = false.
Proof.
  induction l as [|y l IH]; simpl; [done|].
  destruct (p y) eqn:E; [done|]. by intros [= -> _].
Qed.

Lemma takewhile_all {A} (p : A → bool) l :
  Forall (λ x, p x = true) l → Py.takewhile p l = l ∧ Py.dropwhile p l = [].
Proof.
  induction 1 as [|x l Hx _ [IH1 IH2]]; simpl; [done|].
  rewrite Hx. by rewrite IH1.
Qed.

Lemma dropwhile_none {A} (p : A → bool) l :
  Forall (λ x, p x = false) l → Py.dropwhile p l = l.
Proof. destruct 1 as [|x l Hx _]; simpl; [done|]. by rewrite Hx. Qed.

Lemma startswith_app p t : Py.startswith p (p ++ t) = true.
Proof. induction p as [|a p IH]; simpl; [done|]. by rewrite N.eqb_refl. Qed.

Lemma startswith_inv p s : Py.startswith p s = true → s = p ++ drop (length p) s.
Proof.
  revert s; induction p as [|a p IH]; intros [|b s]; simpl; try done.
  intros [->%N.eqb_eq H]%andb_prop. f_equal. by apply IH.
Qed.

Lemma startswith_head_ne a p b s : a ≠ b → Py.startswith (a :: p) (b :: s) = false.
Proof. intros H. simpl. by apply N.eqb_neq in H as ->. Qed.

(** A stripped text does not end with a space character. *)
Lemma strip_last s t c : Py.strip s = t ++ [c] → Py.isspace c = false.
Proof.
  unfold Py.strip, Py.rstrip. intros H.
  apply (f_equal reverse) in H.
  rewrite reverse_involutive, reverse_snoc in H.
  by apply dropwhile_head in H.
Qed.

(** Stripping a text without space characters leaves it as it is. *)
Lemma strip_nospace s : Forall (λ c, Py.isspace c = false) s → Py.strip s = s.
Proof.
  intros H. unfold Py.strip, Py.rstrip, Py.lstrip.
  rewrite (dropwhile_none _ s H).
  rewrite dropwhile_none; [apply reverse_involutive|].
  by apply Forall_reverse.
Qed.

Lemma negb_isspace_Forall (l : str) :
  Forall (λ c, negb (Py.isspace c) = true) l ↔ Forall (λ c, Py.isspace c = false) l.
Proof. apply Forall_proper; [|done]. intros c. by destruct (Py.isspace c). Qed.

(** ** Splitting and joining *)

Lemma split_scan_skip sep pre rest cur :
  Py.split_scan sep (length pre) cur (pre ++ rest) = Py.split_scan sep O cur rest.
Proof.
  induction pre as [|c pre IH]; simpl; [|done].
  by destruct rest.
Qed.

Lemma split_scan_nonempty sep skip cur s : Py.split_scan sep skip cur s ≠ [].
Proof.
  revert skip cur; induction s as [|c s IH]; intros skip cur; simpl; [done|].
  destruct skip; [|apply IH]. destruct (Py.startswith sep (c :: s)); [done|apply IH].
Qed.

Section SplitJoin.

(** A separator [c0 :: sep'] and fields in which [c0] does not occur. *)
Variables (c0 : char) (sep' : str).
Let sep := c0 :: sep'.

Lemma split_scan_last cur x :
  Forall (λ c, c ≠ c0) x → Py.split_scan sep O cur x = [cur ++ x].
Proof.
  intros H; revert cur; induction H as [|c x Hc _ IH]; intros cur; simpl.
  { by rewrite app_nil_r. }
  apply not_eq_sym, N.eqb_neq in Hc as ->. simpl.
  by rewrite IH, <-(assoc_L (++)).
Qed.

Lemma split_scan_field cur x rest :
  Forall (λ c, c ≠ c0) x →
  Py.split_scan sep O cur (x ++ sep ++ rest)
  = (cur ++ x) :: Py.split_scan sep O [] rest.
Proof.
  intros H; revert cur; induction H as [|c x Hc _ IH]; intros cur.
  - rewrite app_nil_r. change ([] ++ sep ++ rest) with (c0 :: (sep' ++ rest)).
    cbn [Py.split_scan].
    change (c0 :: (sep' ++ rest)) with (sep ++ rest) at 1.
    rewrite startswith_app. f_equal. apply split_scan_skip.
  - change ((c :: x) ++ sep ++ rest) with (c :: (x ++ sep ++ rest)).
    cbn [Py.split_scan]. unfold sep at 1.
    rewrite startswith_head_ne by done.
    by rewrite IH, <-(assoc_L (++)).
Qed.

Lemma split_join parts :
  parts ≠ [] → Forall (Forall (λ c, c ≠ c0)) parts →
  Py.split sep (Py.join sep parts) = parts.
Proof.
  intros Hne H. unfold Py.split.
  induction H as [|x parts Hx Hparts IH]; [done|].
  destruct parts as [|y parts].
  - simpl. by rewrite split_scan_last.
  - change (Py.join sep (x :: y :: parts))
      with (x ++ sep ++ Py.join sep (y :: parts)).
    rewrite split_scan_field by done. simpl. f_equal. by apply IH.
Qed.

End SplitJoin.

(** ** The order of [sorted] *)

Lemma str_leb_refl a : Py.str_leb a a = true.
Proof.
  induction a as [|x a IH]; simpl; [done|].
  by rewrite N.eqb_refl, IH, orb_true_r.
Qed.

Lemma str_leb_cons x a y b :
  Py.str_leb (x :: a) (y :: b) = true ↔ x < y ∨ (x = y ∧ Py.str_leb a b = true).
Proof.
  simpl. by rewrite orb_true_iff, andb_true_iff, N.ltb_lt, N.eqb_eq.
Qed.

#[global] Instance str_le_total : Total Py.str_le.
Proof.
  intros a. unfold Py.str_le.
  induction a as [|x a IH]; intros [|y b]; [by left|by left|by right|].
  rewrite !str_leb_cons. destruct (IH b); destruct (N.lt_total x y) as [|[|]]; auto.
Qed.

#[global] Instance str_le_trans : Transitive Py.str_le.
Proof.
  intros a. unfold Py.str_le.
  induction a as [|x a IH]; intros [|y b] [|z c]; try done.
  rewrite !str_leb_cons. intros [?|[-> ?]] [?|[-> ?]]; [left; lia|by left|by left|].
  right. split; [done|]. by eapply IH.
Qed.

#[global] Instance str_le_antisymm : AntiSymm (=) Py.str_le.
Proof.
  intros a. unfold Py.str_le.
  induction a as [|x a IH]; intros [|y b]; try done.
  rewrite !str_leb_cons. intros [?|[? ?]] [?|[? ?]]; try lia.
  subst. f_equal. by apply IH.
Qed.

(** ** The regular expression *)

Lemma re_match_from_intro t : from_term t → re_match_from t = true.
Proof.
  intros (addr & -> & Hne & Hsp). unfold re_match_from.
  rewrite startswith_app. unfold Py.slice_from. rewrite drop_app_length.
  apply negb_isspace_Forall, takewhile_all in Hsp as [-> ->].
  by destruct addr.
Qed.

Lemma re_match_from_elim t :
  (∀ t', t ≠ t' ++ [newline]) → re_match_from t = true → from_term t.
Proof.
  intros Hlast [Hpre H]%andb_prop. apply startswith_inv in Hpre.
  unfold Py.slice_from in H.
  set (rest := drop (length from_prefix) t) in *.
  pose proof (takewhile_dropwhile (λ c, negb (Py.isspace c)) rest) as Hsplit.
  pose proof (takewhile_Forall (λ c, negb (Py.isspace c)) rest) as Hrun.
  destruct (Py.takewhile _ rest) as [|c run] eqn:Erun; [done|].
  destruct (Py.dropwhile _ rest) as [|d [|??]] eqn:Etail; [| |done].
  - exists rest. split; [done|]. rewrite app_nil_r in Hsplit. subst rest.
    rewrite <-Hsplit. split; [done|]. by apply negb_isspace_Forall.
  - apply N.eqb_eq in H as ->. exfalso.
    apply (Hlast (from_prefix ++ c :: run)).
    rewrite <-(assoc_L (++)), Hsplit. exact Hpre.
Qed.

(** On a stripped term the expression matches exactly the terms made of
    [from:] and a non-empty run of non-space characters. *)
Lemma re_match_from_strip s : re_match_from (Py.strip s) = true ↔ from_term (Py.strip s).
Proof.
  split; [|apply re_match_from_intro].
  apply re_match_from_elim. intros t' H. by apply strip_last in H.
Qed.

Lemma forallb_Forall {A} (f : A → bool) l :
  forallb f l = true ↔ Forall (λ x, f x = true) l.
Proof.
  induction l as [|x l IH]; simpl; [by split; [constructor|]|].
  rewrite andb_true_iff, Forall_cons. by rewrite IH.
Qed.

Lemma terms_of_from_terms s :
  forallb re_match_from (terms_of s) = true ↔ Forall from_term (terms_of s).
Proof.
  rewrite forallb_Forall. unfold terms_of. rewrite !Forall_fmap.
  apply Forall_proper; [|done]. intros t. simpl. apply re_match_from_strip.
Qed.

(** * Classification and extraction *)

Section Classify.

Context {Payload : Type}.
Implicit Types rule : Rule Payload.

Lemma is_from_rule_iff rule :
  is_from_rule rule = true ↔
  ∃ s, search rule = Some s ∧ s ≠ [] ∧ Forall from_term (terms_of s).
Proof.
  unfold is_from_rule. destruct (search rule) as [[|c s]|].
  - split; [done|]. by intros (? & [= <-] & ? & _).
  - rewrite terms_of_from_terms. split.
    + intros H. by exists (c :: s).
    + by intros (? & [= <-] & _ & H).
  - split; [done|]. by intros (? & ? & _).
Qed.

(** C5.  [is_from_rule] answers true exactly when [search] is present and
    not empty and every term of it, after splitting on [" OR "] and
    trimming, is [from:] followed by one or more non-space characters and
    nothing else; so it answers false when [search] is absent, empty, or
    has a term that is not of that shape. *)
Theorem is_from_rule_spec rule :
  is_from_rule rule = true ↔
  ∃ s, search rule = Some s ∧ s ≠ [] ∧
       Forall from_term (Py.strip <$> Py.split or_sep s).
Proof. apply is_from_rule_iff. Qed.

Lemma is_from_rule_terms rule s :
  search rule = Some s → is_from_rule rule = true →
  s ≠ [] ∧ Forall from_term (terms_of s).
Proof.
  intros Hs (s' & Hs' & Hne & H)%is_from_rule_iff.
  rewrite Hs in Hs'. by injection Hs' as <-.
Qed.

Lemma extract_emails_terms s :
  Forall from_term (terms_of s) →
  (λ email, from_prefix ++ email) <$> extract_emails s = terms_of s.
Proof.
  unfold extract_emails. generalize (terms_of s) as l.
  induction 1 as [|t l (addr & -> & _) _ IH]; [done|].
  rewrite !fmap_cons. by f_equal.
Qed.

(** C9.  On a search text that passes [is_from_rule], [extract_emails]
    splits on [" OR "], trims each term and drops its first five
    characters, which are the prefix [from:]; the addresses come in the
    order of the terms. *)
Theorem extract_emails_spec rule s :
  search rule = Some s → is_from_rule rule = true →
  extract_emails s = drop 5 <$> (Py.strip <$> Py.split or_sep s) ∧
  length from_prefix = 5%nat ∧
  (λ email, from_prefix ++ email) <$> extract_emails s
    = Py.strip <$> Py.split or_sep s.
Proof.
  intros Hs Hr. destruct (is_from_rule_terms _ _ Hs Hr) as [_ H].
  split; [done|]. split; [done|]. by apply extract_emails_terms.
Qed.

End Classify.

(** * De-duplication *)

Section Fromkeys.

Context {A : Type} `{EqDecision A}.
Implicit Types l acc : list A.

Lemma foldl_dict_add l acc :
  foldl Py.dict_add acc l = acc ++ filter (λ y, y ∉ acc) (first_occ l).
Proof.
  revert acc; induction l as [|x l IH]; intros acc; simpl.
  { by rewrite filter_nil, app_nil_r. }
  rewrite IH. unfold Py.dict_add. destruct (decide (x ∈ acc)) as [Hx|Hx].
  - rewrite filter_cons_False by (by intros ?). f_equal.
    rewrite list_filter_filter. apply list_filter_iff.
    intros y. split; [|by intros [? _]].
    intros Hy. split; [done|]. by intros ->.
  - rewrite filter_cons_True by done.
    rewrite <-(assoc_L (++)). simpl. do 2 f_equal.
    rewrite list_filter_filter. apply list_filter_iff.
    intros y. rewrite elem_of_app, list_elem_of_singleton. tauto.
Qed.

Lemma fromkeys_first_occ l : Py.fromkeys l = first_occ l.
Proof.
  unfold Py.fromkeys. rewrite foldl_dict_add. simpl.
  induction (first_occ l) as [|x k IH]; [done|].
  rewrite filter_cons_True; [by f_equal|]. by intros ?%elem_of_nil.
Qed.

Lemma elem_of_first_occ l x : x ∈ first_occ l ↔ x ∈ l.
Proof.
  induction l as [|y l IH]; simpl; [done|].
  rewrite !elem_of_cons, list_elem_of_filter, IH.
  destruct (decide (x = y)); tauto.
Qed.

Lemma NoDup_first_occ l : NoDup (first_occ l).
Proof.
  induction l as [|y l IH]; simpl; constructor.
  - rewrite list_elem_of_filter. by intros [? _].
  - by apply NoDup_filter.
Qed.

End Fromkeys.

(** * Merging the rules of one folder *)

Section Folder.

Context {Payload : Type}.
Implicit Types (rule r : Rule Payload) (rules : list (Rule Payload)).
Implicit Types target : str.

Lemma partition_loop target rules a b :
  foldl (partition_step target) (a, b) rules
  = (a ++ candidates target rules, b ++ others target rules).
Proof.
  unfold candidates, others.
  revert a b; induction rules as [|r rules IH]; intros a b; simpl.
  { by rewrite !app_nil_r. }
  unfold partition_step at 2. simpl.
  destruct (is_candidate target r) eqn:E; rewrite IH.
  - rewrite filter_cons_True, filter_cons_False by (rewrite E; naive_solver).
    by rewrite <-(assoc_L (++)).
  - rewrite filter_cons_False, filter_cons_True by (rewrite E; naive_solver).
    by rewrite <-(assoc_L (++)).
Qed.

Lemma all_emails_of_concat (l : list (Rule Payload)) :
  all_emails_of l = concat (addresses_of <$> l).
Proof.
  unfold all_emails_of.
  assert (∀ acc, foldl (λ all_emails r, all_emails ++ addresses_of r) acc l
                 = acc ++ concat (addresses_of <$> l)) as H; [|apply H].
  induction l as [|r l IH]; intros acc; simpl; [by rewrite app_nil_r|].
  by rewrite IH, <-(assoc_L (++)).
Qed.

Lemma combine_rules_for_folder_eq rules target :
  combine_rules_for_folder rules target =
  match candidates target rules with
  | [] | [_] => rules
  | first :: rest => merged_rule first rest :: others target rules
  end.
Proof.
  unfold combine_rules_for_folder. rewrite partition_loop. simpl.
  destruct (candidates target rules) as [|first [|second rest]]; try done.
  by rewrite fromkeys_first_occ, all_emails_of_concat.
Qed.

Lemma combine_noop rules target :
  (length (candidates target rules) ≤ 1)%nat →
  combine_rules_for_folder rules target = rules.
Proof.
  intros H. rewrite combine_rules_for_folder_eq.
  destruct (candidates target rules) as [|first [|second rest]]; try done.
  simpl in H. lia.
Qed.

(** C6.  With at most one candidate for the folder,
    [combine_rules_for_folder] gives back the sequence it was given: the
    candidate, if there is one, is neither rewritten nor moved. *)
Theorem combine_rules_for_folder_noop rules target :
  (length (candidates target rules) ≤ 1)%nat →
  combine_rules_for_folder rules target = rules.
Proof. apply combine_noop. Qed.

(** C1.  With two candidates or more, the result is one merged rule
    followed by the rules that are not candidates, in their order.  The
    merged rule has the fields of the first candidate, but its [search]
    is [from:A1 OR from:A2 OR ...], where [A1, A2, ...] are the addresses
    of all candidates (candidates in their order, addresses of one search
    in their order), each kept once at its first occurrence. *)
Theorem combine_rules_for_folder_merge rules target :
  (2 ≤ length (candidates target rules))%nat →
  ∃ first rest addrs,
    candidates target rules = first :: rest ∧
    addrs = first_occ (concat (addresses_of <$> first :: rest)) ∧
    NoDup addrs ∧
    (∀ a, a ∈ addrs ↔ ∃ r, r ∈ candidates target rules ∧ a ∈ addresses_of r) ∧
    combine_rules_for_folder rules target =
      {| search := Some (Py.join or_sep
                           ((λ email, from_prefix ++ email) <$> addrs));
         fileIn := fileIn first;
         payload := payload first |} :: others target rules.
Proof.
  intros H. rewrite combine_rules_for_folder_eq.
  destruct (candidates target rules) as [|first [|second rest]] eqn:E;
    simpl in H; [lia|lia|].
  exists first, (second :: rest),
    (first_occ (concat (addresses_of <$> first :: second :: rest))).
  split; [done|]. split; [done|].
  split; [apply NoDup_first_occ|]. split; [|done].
  intros a. rewrite elem_of_first_occ, list_elem_of_In, in_concat.
  split.
  - intros (l & Hl%list_elem_of_In & Ha%list_elem_of_In).
    apply list_elem_of_fmap in Hl as (r & -> & Hr). by exists r.
  - intros (r & Hr & Ha). exists (addresses_of r).
    rewrite <-!list_elem_of_In. split; [|done].
    apply list_elem_of_fmap. by exists r.
Qed.

(** *** The merged rule is again a [from:] rule *)

Lemma addresses_of_good r :
  is_from_rule r = true →
  addresses_of r ≠ [] ∧ Forall good_addr (addresses_of r).
Proof.
  intros Hr. unfold addresses_of.
  destruct (search r) as [s|] eqn:Hs; [|by unfold is_from_rule in Hr; rewrite Hs in Hr].
  destruct (is_from_rule_terms _ _ Hs Hr) as [_ H].
  unfold extract_emails. split.
  - unfold terms_of. intros E%fmap_nil_inv%fmap_nil_inv.
    by apply split_scan_nonempty in E.
  - apply Forall_fmap. eapply Forall_impl; [exact H|].
    by intros t (addr & -> & ? & ?).
Qed.

Lemma is_candidate_spec target r :
  is_candidate target r = true ↔ fileIn r = Some target ∧ is_from_rule r = true.
Proof.
  unfold is_candidate. by rewrite andb_true_iff, bool_decide_eq_true.
Qed.

Lemma elem_of_candidates target rules r :
  r ∈ candidates target rules ↔
  r ∈ rules ∧ fileIn r = Some target ∧ is_from_rule r = true.
Proof.
  unfold candidates. rewrite list_elem_of_filter, is_candidate_spec. tauto.
Qed.

(** A candidate holds a non-empty text in [search], so reading
    [rule['search']] in the loop over [to_combine] never fails. *)
Lemma candidates_have_search target rules r :
  r ∈ candidates target rules → ∃ s, search r = Some s ∧ s ≠ [].
Proof.
  intros (_ & _ & Hr)%elem_of_candidates.
  apply is_from_rule_iff in Hr as (s & ? & ? & _). by exists s.
Qed.

Lemma terms_of_join (addrs : list str) :
  addrs ≠ [] → Forall good_addr addrs →
  terms_of (Py.join or_sep ((λ email, from_prefix ++ email) <$> addrs))
  = (λ email, from_prefix ++ email) <$> addrs.
Proof.
  intros Hne Hgood.
  set (parts := (λ email, from_prefix ++ email) <$> addrs).
  assert (Forall (Forall (λ c, Py.isspace c = false)) parts) as Hparts.
  { apply Forall_fmap. eapply Forall_impl; [exact Hgood|].
    intros a [_ Ha]. apply Forall_app. split; [|done].
    by repeat constructor. }
  assert (Py.split or_sep (Py.join or_sep parts) = parts) as Hsplit.
  { apply (split_join 32); [by destruct addrs|].
    eapply Forall_impl; [exact Hparts|]. intros x Hx.
    eapply Forall_impl; [exact Hx|]. by intros c Hc ->. }
  unfold terms_of. rewrite Hsplit. clearbody parts. clear Hsplit.
  induction Hparts as [|x l Hx _ IH]; [done|].
  rewrite fmap_cons, IH. f_equal. by apply strip_nospace.
Qed.

Lemma extract_emails_join (addrs : list str) :
  addrs ≠ [] → Forall good_addr addrs →
  extract_emails (Py.join or_sep ((λ email, from_prefix ++ email) <$> addrs))
  = addrs.
Proof.
  intros Hne Hgood. unfold extract_emails. rewrite terms_of_join by done.
  clear. induction addrs as [|a addrs IH]; [done|].
  rewrite !fmap_cons, IH. by f_equal.
Qed.

Lemma from_search_is_from_rule r (addrs : list str) :
  addrs ≠ [] → Forall good_addr addrs →
  search r = Some (Py.join or_sep ((λ email, from_prefix ++ email) <$> addrs)) →
  is_from_rule r = true.
Proof.
  intros Hne Hgood Hs.
  apply is_from_rule_iff. eexists. split; [exact Hs|]. split.
  - destruct addrs as [|a [|b addrs]]; [done|done|done].
  - rewrite terms_of_join by done. apply Forall_fmap.
    eapply Forall_impl; [exact Hgood|]. intros a [? ?]. by exists a.
Qed.

Lemma all_addresses_good (l : list (Rule Payload)) :
  Forall (λ r, is_from_rule r = true) l →
  Forall good_addr (first_occ (concat (addresses_of <$> l))).
Proof.
  intros H. apply Forall_forall. intros a Ha. rewrite elem_of_first_occ in Ha.
  apply list_elem_of_In, in_concat in Ha as (k & Hk%list_elem_of_In & Ha%list_elem_of_In).
  apply list_elem_of_fmap in Hk as (r & -> & Hr).
  eapply Forall_forall in H; [|exact Hr].
  apply addresses_of_good in H as [_ H].
  by eapply Forall_forall in H.
Qed.

Lemma all_addresses_nonempty (first : Rule Payload) rest :
  is_from_rule first = true →
  first_occ (concat (addresses_of <$> first :: rest)) ≠ [].
Proof.
  intros [Hne _]%addresses_of_good. simpl. by destruct (addresses_of first).
Qed.

Lemma merged_rule_is_from (first : Rule Payload) rest :
  Forall (λ r, is_from_rule r = true) (first :: rest) →
  is_from_rule (merged_rule first rest) = true.
Proof.
  intros H. eapply from_search_is_from_rule; [| |done].
  - apply all_addresses_nonempty. by apply Forall_cons in H as [? _].
  - by apply all_addresses_good.
Qed.

(** The addresses read back from a merged rule are those it was built
    from: each address of the candidates, once. *)
Lemma addresses_of_merged (first : Rule Payload) rest :
  Forall (λ r, is_from_rule r = true) (first :: rest) →
  addresses_of (merged_rule first rest)
  = first_occ (concat (addresses_of <$> first :: rest)).
Proof.
  intros H. unfold addresses_of, merged_rule. cbn [search].
  apply extract_emails_join.
  - apply all_addresses_nonempty. by apply Forall_cons in H as [? _].
  - by apply all_addresses_good.
Qed.

Lemma candidates_from_rules target rules :
  Forall (λ r, is_from_rule r = true) (candidates target rules).
Proof. apply Forall_forall. by intros r (_ & _ & ?)%elem_of_candidates. Qed.

Lemma candidates_others target rules : candidates target (others target rules) = [].
Proof.
  unfold candidates, others. rewrite list_filter_filter.
  induction rules as [|r rules IH]; [done|].
  rewrite filter_cons_False; [done|]. by intros [? ?].
Qed.

(** C10.  With two candidates or more, the merged rule passes
    [is_from_rule] and files into the target folder, so it is a candidate
    for that folder again, and the only one of the result. *)
Theorem merged_rule_requalifies rules target :
  (2 ≤ length (candidates target rules))%nat →
  ∃ merged rest,
    combine_rules_for_folder rules target = merged :: rest ∧
    is_from_rule merged = true ∧
    is_candidate target merged = true ∧
    candidates target (combine_rules_for_folder rules target) = [merged].
Proof.
  intros H. rewrite combine_rules_for_folder_eq.
  destruct (candidates target rules) as [|first [|second rest]] eqn:E;
    simpl in H; [lia|lia|].
  assert (Forall (λ r, fileIn r = Some target ∧ is_from_rule r = true)
            (first :: second :: rest)) as Hall.
  { rewrite <-E. apply Forall_forall. by intros r (_ & ? & ?)%elem_of_candidates. }
  assert (is_from_rule (merged_rule first (second :: rest)) = true) as Hfrom.
  { apply merged_rule_is_from. eapply Forall_impl; [exact Hall|]. by intros r [_ ?]. }
  assert (is_candidate target (merged_rule first (second :: rest)) = true) as Hcand.
  { apply is_candidate_spec. split; [|done]. simpl.
    by apply Forall_cons in Hall as [[? _] _]. }
  eexists _, _. split; [done|]. split; [done|]. split; [done|].
  unfold candidates at 1. rewrite filter_cons_True by done.
  f_equal. apply candidates_others.
Qed.

End Folder.

(** * Merging all folders *)

Section AllFolders.

Context {Payload : Type}.
Implicit Types (rule r : Rule Payload) (rules : list (Rule Payload)).
Implicit Types (f g target : str) (fs : list str).

Lemma truthy_spec (o : option str) :
  Py.truthy o = true ↔ ∃ s, o = Some s ∧ s ≠ [].
Proof.
  destruct o as [[|c s]|]; simpl; split; try done.
  - by intros (? & [= <-] & ?).
  - intros _. by eexists.
  - by intros (? & ? & _).
Qed.

Lemma qualifies_cons f r rules :
  qualifies f (r :: rules) ↔
  (f ≠ [] ∧ fileIn r = Some f ∧ is_from_rule r = true) ∨ qualifies f rules.
Proof.
  unfold qualifies. split.
  - intros (Hf & r' & Hr' & H). apply elem_of_cons in Hr' as [-> | Hr'].
    + by left.
    + right. split; [done|]. by exists r'.
  - intros [(Hf & H)|(Hf & r' & Hr' & H)]; (split; [done|]).
    + exists r. split; [left|done].
    + exists r'. split; [by right|done].
Qed.

Lemma elem_of_folders_loop rules (acc : gset str) f :
  f ∈ foldl (λ (folders : gset str) rule,
               if Py.truthy (fileIn rule) && is_from_rule rule
               then folders ∪ {[ default [] (fileIn rule) ]}
               else folders) acc rules
  ↔ f ∈ acc ∨ qualifies f rules.
Proof.
  revert acc; induction rules as [|r rules IH]; intros acc; simpl.
  { split; [by left|]. by intros [?|(_ & ? & ?%elem_of_nil & _)]. }
  rewrite IH, qualifies_cons.
  destruct (Py.truthy (fileIn r) && is_from_rule r) eqn:E.
  - apply andb_prop in E as [(s & Hs & Hne)%truthy_spec Hr].
    rewrite Hs. simpl. rewrite elem_of_union, elem_of_singleton.
    split; [intros [[? | ->] | ?]; auto|].
    intros [? | [(_ & [= ->] & _) | ?]]; auto.
  - split; [intros [?|?]; auto|].
    intros [?|[(Hf & Hs & Hr)|?]]; auto.
    rewrite Hs, Hr in E. by destruct f.
Qed.

Lemma elem_of_folders_of rules f : f ∈ folders_of rules ↔ qualifies f rules.
Proof.
  unfold folders_of. rewrite elem_of_folders_loop.
  split; [by intros [?%elem_of_empty|?]|by right].
Qed.

Lemma str_lt_sorted fs :
  StronglySorted Py.str_le fs → NoDup fs → StronglySorted str_lt fs.
Proof.
  induction 1 as [|f fs _ IH Hf]; [constructor|].
  intros [Hnotin Hnd]%NoDup_cons; constructor.
  - by apply IH.
  - apply Forall_forall. intros g Hg. split.
    + by eapply Forall_forall in Hf.
    + by intros ->.
Qed.

Lemma sorted_folders_spec rules :
  let fs := Py.sorted (elements (folders_of rules)) in
  (∀ f, f ∈ fs ↔ qualifies f rules) ∧ NoDup fs ∧ StronglySorted Py.str_le fs.
Proof.
  intros fs.
  assert (fs ≡ₚ elements (folders_of rules)) as Hperm
    by apply merge_sort_Permutation.
  split; [|split].
  - intros f. by rewrite Hperm, elem_of_elements, elem_of_folders_of.
  - rewrite Hperm. apply NoDup_elements.
  - apply (StronglySorted_merge_sort _).
Qed.

(** C3.  [combine_all_folders] gathers the folders that have a name and
    at least one rule passing [is_from_rule], each once, and applies
    [combine_rules_for_folder] for them in ascending code-point order,
    each time to the result of the step before. *)
Theorem combine_all_folders_spec rules :
  ∃ fs,
    (∀ f, f ∈ fs ↔
          f ≠ [] ∧ ∃ r, r ∈ rules ∧ fileIn r = Some f ∧ is_from_rule r = true) ∧
    NoDup fs ∧
    StronglySorted str_lt fs ∧
    combine_all_folders rules = foldl combine_rules_for_folder rules fs.
Proof.
  exists (Py.sorted (elements (folders_of rules))).
  destruct (sorted_folders_spec rules) as (Hin & Hnd & Hsorted).
  split; [exact Hin|]. split; [done|]. split; [|done].
  by apply str_lt_sorted.
Qed.

(** *** Folders with at most one candidate *)

Lemma foldl_combine_noop rules fs :
  (∀ f, f ∈ fs → (length (candidates f rules) ≤ 1)%nat) →
  foldl combine_rules_for_folder rules fs = rules.
Proof.
  induction fs as [|g fs IH]; intros H; simpl; [done|].
  rewrite combine_noop by (apply H; left).
  apply IH. intros f Hf. apply H. by right.
Qed.

Lemma combine_all_noop rules :
  (∀ f, f ≠ [] → (length (candidates f rules) ≤ 1)%nat) →
  combine_all_folders rules = rules.
Proof.
  intros H. apply foldl_combine_noop. intros f Hf. apply H.
  destruct (sorted_folders_spec rules) as (Hin & _).
  by apply Hin in Hf as [? _].
Qed.

(** C7.  When no folder with a name has two candidates or more, and so
    for the empty sequence, [combine_all_folders] gives back its input:
    the same rules, with the same fields, in the same order. *)
Theorem combine_all_folders_unchanged rules :
  (∀ f, f ≠ [] → (length (candidates f rules) ≤ 1)%nat) →
  combine_all_folders rules = rules.
Proof. apply combine_all_noop. Qed.

(** *** What one merge does to the candidates of the folders *)

Lemma filter_absorb {A} (P Q : A → Prop)
    `{∀ x, Decision (P x)} `{∀ x, Decision (Q x)} (l : list A) :
  (∀ x, x ∈ l → P x → Q x) → filter P (filter Q l) = filter P l.
Proof.
  intros HPQ. rewrite list_filter_filter.
  induction l as [|x l IH]; [done|].
  rewrite !filter_cons, IH by (intros y ?; apply HPQ; by right).
  destruct (decide (P x)) as [HP|HP].
  - rewrite decide_True; [done|]. split; [done|]. apply HPQ; [left|done].
  - rewrite decide_False; [done|]. by intros [? _].
Qed.

Lemma candidates_combine_other f g rules :
  f ≠ g →
  candidates f (combine_rules_for_folder rules g) = candidates f rules.
Proof.
  intros Hfg. rewrite combine_rules_for_folder_eq.
  destruct (candidates g rules) as [|first [|second rest]] eqn:E; try done.
  assert (fileIn first = Some g) as Hfirst.
  { assert (first ∈ candidates g rules) as Hin by (rewrite E; left).
    by apply elem_of_candidates in Hin as (_ & ? & _). }
  unfold candidates at 1. rewrite filter_cons_False.
  - apply filter_absorb. intros r _ [Hf _]%is_candidate_spec [Hg _]%is_candidate_spec.
    congruence.
  - intros [Hf _]%is_candidate_spec. simpl in Hf. congruence.
Qed.

Lemma candidates_combine_same g rules :
  (length (candidates g (combine_rules_for_folder rules g)) ≤ 1)%nat.
Proof.
  rewrite combine_rules_for_folder_eq.
  destruct (candidates g rules) as [|first [|second rest]] eqn:E.
  - rewrite E. simpl. lia.
  - rewrite E. simpl. lia.
  - unfold candidates at 1. rewrite filter_cons.
    fold (candidates g (others g rules)). rewrite candidates_others.
    destruct (decide _); simpl; lia.
Qed.

Lemma candidates_foldl_bound rules fs f :
  f ∈ fs ∨ (length (candidates f rules) ≤ 1)%nat →
  (length (candidates f (foldl combine_rules_for_folder rules fs)) ≤ 1)%nat.
Proof.
  revert rules; induction fs as [|g fs IH]; intros rules H; simpl.
  { by destruct H as [?%elem_of_nil|?]. }
  apply IH. destruct (decide (f = g)) as [->|Hfg].
  - right. apply candidates_combine_same.
  - rewrite candidates_combine_other by done.
    destruct H as [[?|?]%elem_of_cons|?]; [done|by left|by right].
Qed.

(** C2.  [combine_all_folders] applied to its own result changes
    nothing: after one pass every folder with a name has at most one
    candidate left. *)
Theorem combine_all_folders_idempotent rules :
  combine_all_folders (combine_all_folders rules) = combine_all_folders rules.
Proof.
  apply combine_all_noop. intros f Hf.
  apply candidates_foldl_bound.
  destruct (sorted_folders_spec rules) as (Hin & _).
  destruct (candidates f rules) as [|r l] eqn:E; [right; simpl; lia|].
  left. apply Hin. split; [done|].
  assert (r ∈ candidates f rules) as Hr by (rewrite E; left).
  apply elem_of_candidates in Hr. by exists r.
Qed.

(** *** Rules without [search] or [fileIn] *)

Lemma passes_through_not_candidate r target :
  passes_through r → is_candidate target r ≠ true.
Proof.
  intros [Hs|Hf] [Hf' Hr']%is_candidate_spec; [|congruence].
  unfold is_from_rule in Hr'. by rewrite Hs in Hr'.
Qed.

Lemma passes_through_combine rules g :
  filter passes_through (combine_rules_for_folder rules g)
  = filter passes_through rules.
Proof.
  rewrite combine_rules_for_folder_eq.
  destruct (candidates g rules) as [|first [|second rest]] eqn:E; try done.
  assert (fileIn first = Some g) as Hfirst.
  { assert (first ∈ candidates g rules) as Hin by (rewrite E; left).
    by apply elem_of_candidates in Hin as (_ & ? & _). }
  rewrite filter_cons_False.
  - apply filter_absorb. intros r _. apply passes_through_not_candidate.
  - intros [?|Hf]; [done|]. simpl in Hf. congruence.
Qed.

Lemma passes_through_foldl rules fs :
  filter passes_through (foldl combine_rules_for_folder rules fs)
  = filter passes_through rules.
Proof.
  revert rules; induction fs as [|g fs IH]; intros rules; simpl; [done|].
  by rewrite IH, passes_through_combine.
Qed.

(** C8.  The rules whose [search] or [fileIn] is absent or null come out
    of [combine_all_folders] as they went in: the same rules with the
    same fields, as many times and in the same order, none of them
    merged. *)
Theorem combine_all_folders_pass_through rules :
  filter passes_through (combine_all_folders rules)
    = filter passes_through rules ∧
  ∀ r, r ∈ rules → search r = None ∨ fileIn r = None →
       r ∈ combine_all_folders rules.
Proof.
  assert (filter passes_through (combine_all_folders rules)
          = filter passes_through rules) as H by apply passes_through_foldl.
  split; [done|]. intros r Hr Hp.
  assert (r ∈ filter passes_through rules) as Hin
    by by apply list_elem_of_filter.
  rewrite <-H in Hin. by apply list_elem_of_filter in Hin as [_ ?].
Qed.

(** *** Every rule is kept or absorbed *)

Lemma absorbed_spec rules r :
  absorbed rules r = true ↔
  ∃ f, f ≠ [] ∧ fileIn r = Some f ∧ is_from_rule r = true ∧
       (2 ≤ length (candidates f rules))%nat.
Proof.
  unfold absorbed. destruct (fileIn r) as [f|]; [|by split; [|intros (? & _ & ? & _)]].
  rewrite !andb_true_iff, bool_decide_eq_true, truthy_spec. split.
  - intros [[(? & [= <-] & ?) ?] ?]. by exists f.
  - intros (? & ? & [= <-] & ? & ?). split; [split|]; [by eexists|done|done].
Qed.

Lemma merge_inv_step rules done l g :
  g ∉ done → g ≠ [] →
  merge_inv rules done l →
  merge_inv rules (g :: done) (combine_rules_for_folder l g).
Proof.
  intros Hg Hne [Htodo Hkept Hdone Honly].
  pose proof (Htodo g Hg) as Hcg.
  rewrite combine_rules_for_folder_eq.
  destruct (candidates g l) as [|first [|second rest]] eqn:E.
  1,2: split; [intros f [? ?]%not_elem_of_cons; auto|done| |done];
       intros f [->|?]%elem_of_cons Hlen; [rewrite <-Hcg in Hlen; simpl in Hlen; lia|auto].
  pose proof (candidates_from_rules g l) as Hfrom. rewrite E in Hfrom.
  assert (fileIn first = Some g) as Hfirst.
  { assert (first ∈ candidates g l) as Hin by (rewrite E; left).
    by apply elem_of_candidates in Hin as (_ & ? & _). }
  assert (absorbed rules (merged_rule first (second :: rest)) = true) as Hm.
  { apply absorbed_spec. exists g. split; [done|]. split; [done|].
    split; [by apply merged_rule_is_from|]. rewrite <-Hcg. simpl. lia. }
  assert (candidates g (merged_rule first (second :: rest) :: others g l)
          = [merged_rule first (second :: rest)]) as Hcm.
  { unfold candidates at 1. rewrite filter_cons_True.
    - f_equal. apply candidates_others.
    - apply is_candidate_spec. split; [done|]. by apply merged_rule_is_from. }
  assert (∀ f, f ≠ g →
            candidates f (merged_rule first (second :: rest) :: others g l)
            = candidates f l) as Hother.
  { intros f Hf. pose proof (candidates_combine_other f g l Hf) as H.
    by rewrite combine_rules_for_folder_eq, E in H. }
  split.
  - intros f [Hfg Hf]%not_elem_of_cons. rewrite Hother by done. by apply Htodo.
  - rewrite filter_cons_False by (intros H; by apply H).
    rewrite <-Hkept. apply filter_absorb.
    intros r _ Hr [Hf Hfr]%is_candidate_spec. apply Hr.
    apply absorbed_spec. exists g. split; [done|]. split; [done|].
    split; [done|]. rewrite <-Hcg. simpl. lia.
  - intros f [->|Hf]%elem_of_cons Hlen.
    + exists first, (second :: rest). by split.
    + rewrite Hother by (by intros ->). by apply Hdone.
  - intros m [->|Hm']%elem_of_cons.
    + right. exists g, first, (second :: rest). by rewrite <-Hcg.
    + apply Honly. unfold others in Hm'. by apply list_elem_of_filter in Hm' as [_ ?].
Qed.

Lemma merge_inv_foldl rules todo done l :
  NoDup todo → (∀ f, f ∈ todo → (f ∉ done) ∧ (f ≠ [])) →
  merge_inv rules done l →
  merge_inv rules (reverse todo ++ done)
            (foldl combine_rules_for_folder l todo).
Proof.
  revert done l; induction todo as [|g todo IH]; intros done l Hnd Htodo Hinv;
    simpl; [done|].
  apply NoDup_cons in Hnd as [Hg Hnd].
  rewrite reverse_cons, <-(assoc_L (++)). simpl.
  destruct (Htodo g) as [Hg' Hne]; [left|].
  apply IH; [done| |by apply merge_inv_step].
  intros f Hf. destruct (Htodo f) as [? ?]; [by right|].
  split; [|done]. apply not_elem_of_cons. split; [|done]. by intros ->.
Qed.

Lemma merge_inv_init rules : merge_inv rules [] rules.
Proof.
  split; [done|done| |by left]. by intros f ?%elem_of_nil.
Qed.

Lemma merge_inv_final rules :
  merge_inv rules (reverse (Py.sorted (elements (folders_of rules))))
            (combine_all_folders rules).
Proof.
  destruct (sorted_folders_spec rules) as (Hin & Hnd & _).
  rewrite <-(app_nil_r (reverse _)). apply merge_inv_foldl;
    [done| |apply merge_inv_init].
  intros f [Hf _]%Hin. split; [apply not_elem_of_nil|done].
Qed.

(** C4.  Every rule of the input is in the result of
    [combine_all_folders] exactly once, on its own or absorbed.  The rules
    no merge consumes are in the result as they are, as many times and in
    the same order.  A rule that a merge consumes has exactly one rule
    standing for its folder in the result, the merged rule of the folder's
    candidates, which files into the same folder and whose address list
    holds every address of the rule.  The result holds nothing else. *)
Theorem combine_all_folders_complete rules :
  filter (λ r, absorbed rules r ≠ true) (combine_all_folders rules)
    = filter (λ r, absorbed rules r ≠ true) rules ∧
  (∀ r, r ∈ rules → absorbed rules r = true →
     ∃ f first rest m,
       fileIn r = Some f ∧
       candidates f rules = first :: rest ∧ r ∈ first :: rest ∧
       m = merged_rule first rest ∧
       candidates f (combine_all_folders rules) = [m] ∧
       fileIn m = Some f ∧
       NoDup (addresses_of m) ∧
       ∀ a, a ∈ addresses_of r → a ∈ addresses_of m) ∧
  (∀ m, m ∈ combine_all_folders rules →
     m ∈ rules ∨
     ∃ f first rest, f ≠ [] ∧ candidates f rules = first :: rest ∧
                     rest ≠ [] ∧ m = merged_rule first rest).
Proof.
  destruct (merge_inv_final rules) as [_ Hkept Hdone Honly].
  destruct (sorted_folders_spec rules) as (Hin & _).
  split; [done|]. split; [|done].
  intros r Hr (f & Hne & Hf & Hfr & Hlen)%absorbed_spec.
  destruct (Hdone f) as (first & rest & Hc & Hout); [|done|].
  { apply elem_of_reverse, Hin. split; [done|]. by exists r. }
  assert (r ∈ (first :: rest)) as Hrc.
  { rewrite <-Hc. by apply elem_of_candidates. }
  pose proof (candidates_from_rules f rules) as Hfrom. rewrite Hc in Hfrom.
  exists f, first, rest, (merged_rule first rest).
  split; [done|]. split; [done|]. split; [done|]. split; [done|].
  split; [done|]. split.
  { simpl. assert (first ∈ candidates f rules) as H1 by (rewrite Hc; left).
    by apply elem_of_candidates in H1 as (_ & ? & _). }
  rewrite addresses_of_merged by done. split; [apply NoDup_first_occ|].
  intros a Ha. apply elem_of_first_occ, list_elem_of_In, in_concat.
  exists (addresses_of r). rewrite <-!list_elem_of_In. split; [|done].
  by apply list_elem_of_fmap_2.
Qed.

End AllFolders.

(** * Further properties of the text primitives *)

Lemma join_cons sep x (l : list str) :
  l ≠ [] → Py.join sep (x :: l) = x ++ sep ++ Py.join sep l.
Proof. by destruct l. Qed.

Lemma join_split_scan sep s cur :
  sep ≠ [] → Py.join sep (Py.split_scan sep O cur s) = cur ++ s.
Proof.
  intros Hsep. remember (length s) as n eqn:Hn.
  assert (length s ≤ n)%nat as Hlen by lia. clear Hn.
  revert s cur Hlen; induction n as [|n IH]; intros [|c s] cur Hlen;
    simpl in Hlen; try lia; try (simpl; by rewrite app_nil_r).
  cbn [Py.split_scan]. destruct (Py.startswith sep (c :: s)) eqn:E.
  - apply startswith_inv in E. destruct sep as [|a sep']; [done|].
    simpl in E. injection E as -> Hs.
    set (rest := drop (length sep') s) in *. clearbody rest. subst s.
    cbn [length pred]. rewrite split_scan_skip.
    rewrite join_cons by apply split_scan_nonempty.
    rewrite length_app in Hlen. rewrite IH by lia. done.
  - rewrite IH by lia. by rewrite <-(assoc_L (++)).
Qed.

(** X11.  Joining the fields of [s.split(sep)] with [sep] gives [s] back,
    for every text and every separator that is not empty. *)
Theorem join_split sep s : sep ≠ [] → Py.join sep (Py.split sep s) = s.
Proof. intros H. unfold Py.split. by rewrite join_split_scan. Qed.

(** * Further properties of one merge *)

Section FolderMore.

Context {Payload : Type}.
Implicit Types (rule r : Rule Payload) (rules : list (Rule Payload)).
Implicit Types (f g target : str).

(** X1.  A [search] written the way the script writes a merged rule,
    [from:A1 OR from:A2 OR ...] over addresses that are not empty and hold
    no space character, passes [is_from_rule], and [extract_emails] reads
    the same addresses back in the same order. *)
Theorem from_search_round_trip r (addrs : list str) :
  addrs ≠ [] → Forall good_addr addrs →
  search r = Some (Py.join or_sep ((λ email, from_prefix ++ email) <$> addrs)) →
  is_from_rule r = true ∧
  extract_emails (Py.join or_sep ((λ email, from_prefix ++ email) <$> addrs))
  = addrs.
Proof.
  intros Hne Hgood Hs. split.
  - by eapply from_search_is_from_rule.
  - by apply extract_emails_join.
Qed.

(** X2.  For a rule that passes [is_from_rule], [extract_emails] gives one
    address per term of the search, at least one, and every address is not
    empty and holds no space character. *)
Theorem is_from_rule_addresses r s :
  search r = Some s → is_from_rule r = true →
  extract_emails s ≠ [] ∧
  length (extract_emails s) = length (Py.split or_sep s) ∧
  Forall good_addr (extract_emails s).
Proof.
  intros Hs Hr. pose proof (addresses_of_good r Hr) as [Hne Hgood].
  unfold addresses_of in *. rewrite Hs in *.
  split; [done|]. split; [|done].
  unfold extract_emails, terms_of. by rewrite !length_fmap.
Qed.

Lemma others_idemp target rules :
  others target (others target rules) = others target rules.
Proof. unfold others. by apply filter_absorb. Qed.

Lemma merged_is_candidate target rules first rest :
  candidates target rules = first :: rest →
  is_candidate target (merged_rule first rest) = true.
Proof.
  intros E. pose proof (candidates_from_rules target rules) as Hfrom.
  rewrite E in Hfrom. apply is_candidate_spec. split.
  - assert (first ∈ candidates target rules) as Hin by (rewrite E; left).
    by apply elem_of_candidates in Hin as (_ & ? & _).
  - by apply merged_rule_is_from.
Qed.

(** X3.  One merge touches only the candidates of its folder: the rules
    that are not candidates for the target come out as they went in and in
    the same order, and so do the candidates of every other folder. *)
Theorem combine_rules_for_folder_frame rules target :
  others target (combine_rules_for_folder rules target) = others target rules ∧
  ∀ g, g ≠ target →
       candidates g (combine_rules_for_folder rules target) = candidates g rules.
Proof.
  split; [|intros g Hg; by apply candidates_combine_other].
  rewrite combine_rules_for_folder_eq.
  destruct (candidates target rules) as [|first [|second rest]] eqn:E; try done.
  unfold others at 1. rewrite filter_cons_False.
  - apply others_idemp.
  - intros H. apply H. by eapply merged_is_candidate.
Qed.

(** X4.  Merging the same folder a second time changes nothing. *)
Theorem combine_rules_for_folder_idempotent rules target :
  combine_rules_for_folder (combine_rules_for_folder rules target) target
  = combine_rules_for_folder rules target.
Proof. apply combine_noop, candidates_combine_same. Qed.

Lemma length_candidates_others target rules :
  (length (candidates target rules) + length (others target rules)
   = length rules)%nat.
Proof.
  unfold candidates, others. rewrite <-length_app.
  apply Permutation_length, filter_app_complement.
Qed.

Lemma length_combine rules target :
  length (combine_rules_for_folder rules target)
  = if decide (2 ≤ length (candidates target rules))%nat
    then S (length rules - length (candidates target rules))
    else length rules.
Proof.
  rewrite combine_rules_for_folder_eq.
  pose proof (length_candidates_others target rules) as Hlen.
  destruct (candidates target rules) as [|first [|second rest]];
    cbn [length] in *; case_decide; lia.
Qed.

(** X5.  A merge of [n >= 2] candidates puts one rule in the place of
    [n]: the result is [n - 1] rules shorter.  With fewer candidates the
    length is that of the input. *)
Theorem combine_rules_for_folder_length rules target :
  length (combine_rules_for_folder rules target)
  = if decide (2 ≤ length (candidates target rules))%nat
    then S (length rules - length (candidates target rules))
    else length rules.
Proof. apply length_combine. Qed.

End FolderMore.

(** * Further properties of the whole run *)

Section AllFoldersMore.

Context {Payload : Type}.
Implicit Types (rule r m : Rule Payload) (rules l : list (Rule Payload)).
Implicit Types (f g target : str) (fs : list str).

Lemma combine_all_bound rules f :
  f ≠ [] → (length (candidates f (combine_all_folders rules)) ≤ 1)%nat.
Proof.
  intros Hf. apply candidates_foldl_bound.
  destruct (sorted_folders_spec rules) as (Hin & _).
  destruct (candidates f rules) as [|r l] eqn:E; [right; simpl; lia|].
  left. apply Hin. split; [done|].
  assert (r ∈ candidates f rules) as Hr by (rewrite E; left).
  apply elem_of_candidates in Hr. by exists r.
Qed.

(** X6.  In the result of [combine_all_folders] every folder with a name
    has at most one rule that passes [is_from_rule]. *)
Theorem combine_all_folders_one_per_folder rules f :
  f ≠ [] → (length (candidates f (combine_all_folders rules)) ≤ 1)%nat.
Proof. apply combine_all_bound. Qed.

Lemma candidates_foldl_small rules fs f :
  (length (candidates f rules) ≤ 1)%nat →
  candidates f (foldl combine_rules_for_folder rules fs) = candidates f rules.
Proof.
  revert rules; induction fs as [|g fs IH]; intros rules H; simpl; [done|].
  destruct (decide (f = g)) as [->|Hfg].
  - rewrite combine_noop by done. by apply IH.
  - rewrite IH; rewrite candidates_combine_other by done; done.
Qed.

Lemma elem_of_all_addresses l (a : str) :
  a ∈ concat (addresses_of <$> l) ↔ ∃ r, r ∈ l ∧ a ∈ addresses_of r.
Proof.
  rewrite list_elem_of_In, in_concat. split.
  - intros (k & Hk%list_elem_of_In & Ha%list_elem_of_In).
    apply list_elem_of_fmap in Hk as (r & -> & Hr). by exists r.
  - intros (r & Hr & Ha). exists (addresses_of r).
    rewrite <-!list_elem_of_In. split; [|done]. by apply list_elem_of_fmap_2.
Qed.

(** X7.  [combine_all_folders] keeps what the [from:] rules say: an
    address is listed by a rule that passes [is_from_rule] and files into
    folder [f] in the result exactly when this is so in the input. *)
Theorem combine_all_folders_addresses rules f (a : str) :
  (∃ r, r ∈ candidates f (combine_all_folders rules) ∧ a ∈ addresses_of r) ↔
  (∃ r, r ∈ candidates f rules ∧ a ∈ addresses_of r).
Proof.
  destruct (decide (length (candidates f rules) ≤ 1)%nat) as [Hsmall|Hbig].
  { unfold combine_all_folders. by rewrite candidates_foldl_small. }
  destruct (merge_inv_final rules) as [Htodo _ Hdone _].
  destruct (decide (f ∈ reverse (Py.sorted (elements (folders_of rules)))))
    as [Hf|Hf]; [|by rewrite Htodo].
  destruct (Hdone f Hf) as (first & rest & Hc & Hout); [lia|].
  pose proof (candidates_from_rules f rules) as Hfrom.
  rewrite Hout, Hc in *. rewrite <-!elem_of_all_addresses.
  cbn [fmap list_fmap concat]. rewrite app_nil_r.
  rewrite addresses_of_merged by done. apply elem_of_first_occ.
Qed.

(** X8.  [combine_all_folders] makes up no rule: every rule of the result
    has the [fileIn] and the other fields of a rule of the input, and it is
    that rule itself unless it passes [is_from_rule]. *)
Theorem combine_all_folders_provenance rules m :
  m ∈ combine_all_folders rules →
  ∃ r, r ∈ rules ∧ fileIn m = fileIn r ∧ payload m = payload r ∧
       (m = r ∨ is_from_rule m = true).
Proof.
  destruct (merge_inv_final rules) as [_ _ _ Honly].
  intros [Hm|(f & first & rest & _ & Hc & _ & ->)]%Honly.
  - exists m. by repeat split; [|left].
  - assert (first ∈ candidates f rules) as Hin by (rewrite Hc; left).
    apply elem_of_candidates in Hin as (Hin & _).
    pose proof (candidates_from_rules f rules) as Hfrom. rewrite Hc in Hfrom.
    exists first. repeat split; [done|]. right. by apply merged_rule_is_from.
Qed.

Lemma combine_length_le l g :
  (length (combine_rules_for_folder l g) ≤ length l)%nat ∧
  (length (combine_rules_for_folder l g) = length l →
   combine_rules_for_folder l g = l).
Proof.
  pose proof (length_candidates_others g l) as Hlen.
  rewrite length_combine. case_decide as Hn.
  - split; [lia|]. intros ?. lia.
  - split; [done|]. intros _. apply combine_noop. lia.
Qed.

Lemma foldl_combine_length l fs :
  (length (foldl combine_rules_for_folder l fs) ≤ length l)%nat ∧
  (length (foldl combine_rules_for_folder l fs) = length l →
   foldl combine_rules_for_folder l fs = l).
Proof.
  revert l; induction fs as [|g fs IH]; intros l; simpl; [done|].
  destruct (combine_length_le l g) as [Hle Heq].
  destruct (IH (combine_rules_for_folder l g)) as [Hle' Heq'].
  split; [lia|]. intros H.
  rewrite Heq' by lia. apply Heq. lia.
Qed.

(** X9.  [combine_all_folders] never gives more rules than it was given,
    and when it gives as many, it has changed nothing. *)
Theorem combine_all_folders_length rules :
  (length (combine_all_folders rules) ≤ length rules)%nat ∧
  (length (combine_all_folders rules) = length rules →
   combine_all_folders rules = rules).
Proof. apply foldl_combine_length. Qed.

Lemma names_folder_candidate g r :
  g ≠ [] → is_candidate g r = true → names_folder r = true.
Proof.
  intros Hg [Hf Hr]%is_candidate_spec. unfold names_folder.
  rewrite Hf, Hr. by destruct g.
Qed.

Lemma names_folder_combine l g :
  g ≠ [] →
  filter (λ r, names_folder r ≠ true) (combine_rules_for_folder l g)
  = filter (λ r, names_folder r ≠ true) l.
Proof.
  intros Hg. rewrite combine_rules_for_folder_eq.
  destruct (candidates g l) as [|first [|second rest]] eqn:E; try done.
  rewrite filter_cons_False.
  - apply filter_absorb. intros r _ Hr Hc. apply Hr.
    by eapply names_folder_candidate.
  - intros H. apply H. eapply names_folder_candidate; [done|].
    by eapply merged_is_candidate.
Qed.

Lemma names_folder_foldl l fs :
  Forall (λ g, g ≠ []) fs →
  filter (λ r, names_folder r ≠ true) (foldl combine_rules_for_folder l fs)
  = filter (λ r, names_folder r ≠ true) l.
Proof.
  intros H; revert l; induction H as [|g fs Hg _ IH]; intros l; simpl; [done|].
  by rewrite IH, names_folder_combine.
Qed.

(** X10.  A rule that does not pass the test of the folder loop (its
    [fileIn] is absent, null or empty, or it does not pass [is_from_rule])
    is never touched by [combine_all_folders]: these rules come out as
    they went in, as many times and in the same order. *)
Theorem combine_all_folders_keeps_other_rules rules :
  filter (λ r, names_folder r ≠ true) (combine_all_folders rules)
  = filter (λ r, names_folder r ≠ true) rules.
Proof.
  apply names_folder_foldl, Forall_forall. intros g Hg.
  destruct (sorted_folders_spec rules) as (Hin & _).
  by apply Hin in Hg as [? _].
Qed.

(** *** The result in closed form *)

Lemma filter_none {A} (P : A → Prop) `{∀ x, Decision (P x)} (l : list A) :
  (∀ x, x ∈ l → ¬ P x) → filter P l = [].
Proof.
  induction l as [|x l IH]; intros HP; [done|].
  rewrite filter_cons_False by (apply HP; left).
  apply IH. intros y ?. apply HP. by right.
Qed.

Lemma filter_all {A} (P : A → Prop) `{∀ x, Decision (P x)} (l : list A) :
  (∀ x, x ∈ l → P x) → filter P l = l.
Proof.
  induction l as [|x l IH]; intros HP; [done|].
  rewrite filter_cons_True by (apply HP; left).
  f_equal. apply IH. intros y ?. apply HP. by right.
Qed.

Lemma filter_ext_in {A} (P Q : A → Prop)
    `{∀ x, Decision (P x)} `{∀ x, Decision (Q x)} (l : list A) :
  (∀ x, x ∈ l → P x ↔ Q x) → filter P l = filter Q l.
Proof.
  induction l as [|x l IH]; intros HPQ; [done|].
  rewrite !filter_cons, IH by (intros y ?; apply HPQ; by right).
  destruct (decide (P x)) as [HP|HP].
  - rewrite decide_True; [done|]. apply HPQ; [left|done].
  - rewrite decide_False; [done|]. intros HQ. apply HP, HPQ; [left|done].
Qed.

Lemma merged_for_Some rules f m :
  merged_for rules f = Some m →
  (2 ≤ length (candidates f rules))%nat ∧ fileIn m = Some f.
Proof.
  unfold merged_for.
  destruct (candidates f rules) as [|first [|second rest]] eqn:E; try done.
  intros [= <-]. split; [simpl; lia|].
  assert (first ∈ candidates f rules) as Hin by (rewrite E; left).
  by apply elem_of_candidates in Hin as (_ & ? & _).
Qed.

Lemma merged_not_candidate rules (done : list str) g m :
  g ∉ done → m ∈ omap (merged_for rules) done → is_candidate g m ≠ true.
Proof.
  intros Hg (f & Hf & [_ Hm]%merged_for_Some)%list_elem_of_omap.
  intros [Hgm _]%is_candidate_spec. congruence.
Qed.

Lemma consumed_not_candidate rules (done : list str) g r :
  g ∉ done → is_candidate g r = true → ¬ consumed_by rules done r.
Proof.
  intros Hg [Hgr _]%is_candidate_spec (f & Hf & [Hfr _]%is_candidate_spec & _)%Exists_exists.
  congruence.
Qed.

Lemma consumed_by_cons rules g (done : list str) r :
  consumed_by rules (g :: done) r ↔
  (is_candidate g r = true ∧ (2 ≤ length (candidates g rules))%nat)
  ∨ consumed_by rules done r.
Proof. unfold consumed_by. apply Exists_cons. Qed.

Lemma closed_form_step rules (done : list str) l g :
  g ∉ done →
  l = omap (merged_for rules) done
      ++ filter (λ r, ¬ consumed_by rules done r) rules →
  combine_rules_for_folder l g
  = omap (merged_for rules) (g :: done)
    ++ filter (λ r, ¬ consumed_by rules (g :: done) r) rules.
Proof.
  intros Hg ->.
  set (M := omap (merged_for rules) done).
  set (K := filter (λ r, ¬ consumed_by rules done r) rules).
  assert (candidates g M = []) as HcM.
  { apply filter_none. intros m Hm. by eapply merged_not_candidate. }
  assert (others g M = M) as HoM.
  { apply filter_all. intros m Hm. by eapply merged_not_candidate. }
  assert (candidates g K = candidates g rules) as HcK.
  { apply filter_absorb. intros r _ Hr. by eapply consumed_not_candidate. }
  assert (candidates g (M ++ K) = candidates g rules) as Hcg.
  { unfold candidates at 1. rewrite filter_app.
    fold (candidates g M) (candidates g K). by rewrite HcM, HcK. }
  rewrite combine_rules_for_folder_eq, Hcg. cbn [omap list_omap].
  fold (omap (merged_for rules) done). fold M. unfold merged_for at 1.
  destruct (candidates g rules) as [|first [|second rest]] eqn:E.
  - f_equal. apply list_filter_iff. intros r.
    rewrite consumed_by_cons, E. simpl. split; [|tauto].
    intros H [[_ ?]|?]; [lia|done].
  - f_equal. apply list_filter_iff. intros r.
    rewrite consumed_by_cons, E. simpl. split; [|tauto].
    intros H [[_ ?]|?]; [lia|done].
  - cbn [app]. f_equal. unfold others at 1. rewrite filter_app.
    fold (others g M). rewrite HoM. f_equal.
    unfold K. rewrite list_filter_filter. apply list_filter_iff.
    intros r. rewrite consumed_by_cons, E. simpl. split; [tauto|].
    intros H. split; [|tauto]. intros ?. apply H. left. split; [done|lia].
Qed.

Lemma closed_form_foldl rules (todo : list str) (done : list str) l :
  NoDup todo → (∀ f, f ∈ todo → f ∉ done) →
  l = omap (merged_for rules) done
      ++ filter (λ r, ¬ consumed_by rules done r) rules →
  foldl combine_rules_for_folder l todo
  = omap (merged_for rules) (reverse todo ++ done)
    ++ filter (λ r, ¬ consumed_by rules (reverse todo ++ done) r) rules.
Proof.
  revert done l; induction todo as [|g todo IH]; intros done l Hnd Htodo Hl;
    simpl; [done|].
  apply NoDup_cons in Hnd as [Hg Hnd].
  rewrite reverse_cons, <-(assoc_L (++)). simpl.
  apply IH; [done| |apply closed_form_step; [apply Htodo; left|done]].
  intros f Hf. apply not_elem_of_cons. split; [by intros ->|].
  apply Htodo. by right.
Qed.

Lemma consumed_absorbed rules r :
  r ∈ rules →
  consumed_by rules (reverse (Py.sorted (elements (folders_of rules)))) r
  ↔ absorbed rules r = true.
Proof.
  intros Hr. destruct (sorted_folders_spec rules) as (Hin & _).
  unfold consumed_by. rewrite Exists_exists, absorbed_spec. split.
  - intros (f & [Hne _]%elem_of_reverse%Hin & [? ?]%is_candidate_spec & ?).
    by exists f.
  - intros (f & Hne & Hf & Hfr & Hlen). exists f.
    split; [|split; [by apply is_candidate_spec|done]].
    apply elem_of_reverse, Hin. split; [done|]. by exists r.
Qed.

(** X12.  The whole result of [combine_all_folders] in closed form: first
    the merged rules of the folders with two candidates or more, the folder
    that comes last in code-point order first, then the rules that no merge
    consumes, in the order of the input. *)
Theorem combine_all_folders_closed_form rules :
  ∃ fs,
    (∀ f, f ∈ fs ↔ qualifies f rules) ∧
    StronglySorted str_lt fs ∧
    combine_all_folders rules
    = omap (merged_for rules) (reverse fs)
      ++ filter (λ r, absorbed rules r ≠ true) rules.
Proof.
  exists (Py.sorted (elements (folders_of rules))).
  destruct (sorted_folders_spec rules) as (Hin & Hnd & Hsorted).
  split; [done|]. split; [by apply str_lt_sorted|].
  unfold combine_all_folders.
  rewrite (closed_form_foldl rules _ [] rules Hnd).
  - rewrite app_nil_r. f_equal. apply filter_ext_in.
    intros r Hr. by rewrite consumed_absorbed.
  - intros f _. apply not_elem_of_nil.
  - simpl. symmetry. apply filter_all. by intros r _ ?%Exists_nil.
Qed.

End AllFoldersMore.

(** * The script on concrete rule sets *)

Example split_ex :
  Py.split or_sep (lit "from:a OR  from:b OR ")
  = [lit "from:a"; lit " from:b"; []].
Proof. reflexivity. Qed.

Example strip_ex : Py.strip (lit "  from:a ") = lit "from:a".
Proof. reflexivity. Qed.

Example is_from_rule_ex :
  is_from_rule (ex_rule "from:a@x.com  OR from:b@x.com" "F" 0) = true ∧
  is_from_rule (ex_rule "from:a@x.com OR subject:hello" "F" 0) = false ∧
  is_from_rule (ex_rule "from:a b" "F" 0) = false ∧
  is_from_rule (ex_rule "from:" "F" 0) = false ∧
  is_from_rule (ex_rule "" "F" 0) = false ∧
  is_from_rule (mkRule None (Some (lit "F")) 0%nat) = false.
Proof. by repeat split. Qed.

(** Examples 1 and 3 of the specification. *)
Example merge_two :
  combine_all_folders [ex_rule "from:a@x.com" "F" 1; ex_rule "from:b@x.com" "F" 2]
  = [ex_rule "from:a@x.com OR from:b@x.com" "F" 1].
Proof. vm_compute. reflexivity. Qed.

Example merge_duplicate :
  combine_all_folders
    [ex_rule "from:a@x.com" "G" 1; ex_rule "from:a@x.com" "G" 2;
     ex_rule "from:b@x.com" "G" 3]
  = [ex_rule "from:a@x.com OR from:b@x.com" "G" 1].
Proof. vm_compute. reflexivity. Qed.

(** Two folders: [A] is merged before [G], and each merged rule goes to the
    front when its folder is merged. *)
Example merge_ex :
  combine_all_folders
    [ex_rule "from:a@x.com" "G" 1; ex_rule "subject:hi" "G" 2;
     ex_rule " from:b@x.com OR from:a@x.com " "G" 3;
     ex_rule "from:c@x.com" "A" 4; ex_rule "from:c@x.com" "A" 5]
  = [ex_rule "from:a@x.com OR from:b@x.com" "G" 1;
     ex_rule "from:c@x.com" "A" 4; ex_rule "subject:hi" "G" 2].
Proof. vm_compute. reflexivity. Qed.

(** Rules that file into the folder with the empty name are never merged. *)
Example merge_unnamed_folder :
  combine_all_folders [ex_rule "from:a@x.com" "" 1; ex_rule "from:b@x.com" "" 2]
  = [ex_rule "from:a@x.com" "" 1; ex_rule "from:b@x.com" "" 2].
Proof. vm_compute. reflexivity. Qed.

Lemma extract_emails_spec_witness :
  extract_emails (lit " from:b@x.com OR from:a@x.com ")
    = [lit "b@x.com"; lit "a@x.com"].
Proof.
  destruct (extract_emails_spec
              (ex_rule " from:b@x.com OR from:a@x.com " "G" 3)
              (lit " from:b@x.com OR from:a@x.com ") eq_refl eq_refl) as [H _].
  rewrite H. reflexivity.
Defined.

Lemma combine_rules_for_folder_noop_witness :
  (length (candidates (lit "G") ex_rules) ≤ 1)%nat ∧
  combine_rules_for_folder ex_rules (lit "G") = ex_rules.
Proof.
  split; [vm_compute; lia|].
  apply combine_rules_for_folder_noop. vm_compute. lia.
Defined.

Lemma combine_rules_for_folder_merge_witness :
  (2 ≤ length (candidates (lit "F") ex_rules))%nat ∧
  combine_rules_for_folder ex_rules (lit "F")
  = [ex_rule "from:a@x.com OR from:b@x.com" "F" 1; ex_rule "subject:hi" "F" 2].
Proof.
  split; [vm_compute; lia|].
  destruct (combine_rules_for_folder_merge ex_rules (lit "F"))
    as (first & rest & addrs & Hc & -> & _ & _ & ->); [vm_compute; lia|].
  vm_compute in Hc. injection Hc as <- <-. vm_compute. reflexivity.
Defined.

Lemma merged_rule_requalifies_witness :
  (2 ≤ length (candidates (lit "F") ex_rules))%nat ∧
  ∃ merged rest,
    combine_rules_for_folder ex_rules (lit "F") = merged :: rest ∧
    is_from_rule merged = true ∧
    is_candidate (lit "F") merged = true ∧
    candidates (lit "F") (combine_rules_for_folder ex_rules (lit "F")) = [merged].
Proof.
  split; [vm_compute; lia|].
  apply merged_rule_requalifies. vm_compute. lia.
Defined.

Lemma combine_all_folders_unchanged_witness :
  combine_all_folders
    [ex_rule "from:a@x.com" "F" 1; ex_rule "from:b@x.com" "G" 2;
     ex_rule "subject:hi" "F" 3; ex_rule "subject:hi" "F" 3]
  = [ex_rule "from:a@x.com" "F" 1; ex_rule "from:b@x.com" "G" 2;
     ex_rule "subject:hi" "F" 3; ex_rule "subject:hi" "F" 3] ∧
  combine_all_folders (@nil (Rule nat)) = [].
Proof.
  split.
  - apply combine_all_folders_unchanged. intros f _.
    unfold candidates. rewrite !filter_cons, filter_nil.
    destruct (decide (f = lit "F")) as [->|HF];
      [vm_compute; lia|].
    destruct (decide (f = lit "G")) as [->|HG];
      [vm_compute; lia|].
    repeat (rewrite decide_False;
            [|intros [Hf _]%is_candidate_spec; simpl in Hf; congruence]).
    simpl. lia.
  - apply combine_all_folders_unchanged. intros f _. simpl. lia.
Defined.

Lemma join_split_witness :
  or_sep ≠ [] ∧
  Py.join or_sep (Py.split or_sep (lit "from:a OR  from:b OR "))
  = lit "from:a OR  from:b OR ".
Proof. split; [done|]. by apply join_split. Defined.

Lemma from_search_round_trip_witness :
  is_from_rule (ex_rule "from:a@x.com OR from:b@x.com" "F" 1) = true ∧
  extract_emails (lit "from:a@x.com OR from:b@x.com")
  = [lit "a@x.com"; lit "b@x.com"].
Proof.
  apply (from_search_round_trip
           (ex_rule "from:a@x.com OR from:b@x.com" "F" 1)
           [lit "a@x.com"; lit "b@x.com"]).
  - done.
  - repeat constructor; done.
  - reflexivity.
Defined.

Lemma is_from_rule_addresses_witness :
  extract_emails (lit " from:b@x.com OR from:a@x.com ") ≠ [] ∧
  length (extract_emails (lit " from:b@x.com OR from:a@x.com "))
  = length (Py.split or_sep (lit " from:b@x.com OR from:a@x.com ")) ∧
  Forall good_addr (extract_emails (lit " from:b@x.com OR from:a@x.com ")).
Proof.
  apply (is_from_rule_addresses
           (ex_rule " from:b@x.com OR from:a@x.com " "G" 3));
    reflexivity.
Defined.

Lemma combine_all_folders_one_per_folder_witness :
  lit "F" ≠ [] ∧
  (length (candidates (lit "F") (combine_all_folders ex_rules)) ≤ 1)%nat.
Proof. split; [done|]. by apply combine_all_folders_one_per_folder. Defined.

Lemma combine_all_folders_provenance_witness :
  ex_rule "from:a@x.com OR from:b@x.com" "F" 1 ∈ combine_all_folders ex_rules ∧
  ∃ r, r ∈ ex_rules ∧
       fileIn (ex_rule "from:a@x.com OR from:b@x.com" "F" 1) = fileIn r ∧
       payload (ex_rule "from:a@x.com OR from:b@x.com" "F" 1) = payload r ∧
       (ex_rule "from:a@x.com OR from:b@x.com" "F" 1 = r ∨
        is_from_rule (ex_rule "from:a@x.com OR from:b@x.com" "F" 1) = true).
Proof.
  assert (ex_rule "from:a@x.com OR from:b@x.com" "F" 1
            ∈ combine_all_folders ex_rules) as Hin.
  { assert (combine_all_folders ex_rules
            = [ex_rule "from:a@x.com OR from:b@x.com" "F" 1;
               ex_rule "subject:hi" "F" 2]) as -> by (vm_compute; reflexivity).
    left. }
  split; [exact Hin|]. by apply combine_all_folders_provenance.
Defined.
